(** * The composition root [Application] of the melog frontend

    Source: [frontend/src/application/application.tsx].

    The file is one function component whose body is a single JSX
    expression.  JSX is sugar for calls of the element factory [jsx]: each
    call allocates a fresh element object holding the component it was
    given and a props object.  The development below embeds exactly that:
    a heap of element objects, the factory as an allocating operation in a
    state monad, and [Application] as the three nested factory calls the
    source spells out.  A second layer models what the host does with the
    returned element (calling the components, collecting their effects,
    letting their exceptions escape) with the three imported components
    kept abstract. *)

From stdpp Require Import base list strings.

Set Warnings "-register-all".

(** ** Values and element objects *)

(** The bindings [application.tsx] imports, plus any other component the
    collaborators may mention in their own output. *)
Inductive Component :=
| BrowserRouter                (* import { BrowserRouter } from 'react-router-dom' *)
| Router                       (* import { Router } from './router' *)
| Setter                       (* import { Setter } from './setter' *)
| Internal (name : string).

Abbreviation addr := nat (only parsing).

(** The JavaScript values that occur as arguments and as props. *)
Inductive Value :=
| VUndefined
| VString (s : string)
| VRef (a : addr).

(** An element object: [{ type, props }].  Props keep the insertion order
    of their keys, as a JavaScript object does. *)
Record ReactElement := mkElement {
  type : Component;
  props : list (string * Value)
}.

(** Objects live in a heap and are named by their address; an address is
    the position at which the object was allocated. *)
Abbreviation Heap := (list ReactElement) (only parsing).

(** ** Heap-passing computations *)

Definition M (A : Type) : Type := Heap -> A * Heap.

Definition ret {A} (x : A) : M A := fun h => (x, h).

Definition bind {A B} (c : M A) (k : A -> M B) : M B :=
  fun h => let (x, h') := c h in k x h'.

Notation "'let*' x ':=' c 'in' k" := (bind c (fun x => k))
  (at level 10, x name, c at level 100, k at level 200).

(** [jsx(type, props)]: allocate a new element object and return a
    reference to it.  Nothing that is already in the heap is touched. *)
Definition jsx (ty : Component) (ps : list (string * Value)) : M Value :=
  fun h => (VRef (length h), h ++ [mkElement ty ps]).

(** ** Functions and calls *)

(** A JavaScript function: its declared parameters and its body, which
    runs in the environment binding those parameters. *)
Record JSFunction := mkFunction {
  params : list string;
  body : list (string * Value) -> M Value
}.

(** Binding of arguments to parameters: a missing argument is
    [undefined], a surplus argument is dropped. *)
Fixpoint bind_params (ps : list string) (args : list Value)
  : list (string * Value) :=
  match ps with
  | [] => []
  | p :: ps' =>
      match args with
      | [] => (p, VUndefined) :: bind_params ps' []
      | a :: args' => (p, a) :: bind_params ps' args'
      end
  end.

Definition call (f : JSFunction) (args : list Value) : M Value :=
  body f (bind_params (params f) args).

(** ** The source

<<
function Application() {
	return (
		<BrowserRouter>
			<Setter>
				<Router />
			</Setter>
		</BrowserRouter>
	);
}
>>
    that is, [jsx(BrowserRouter, { children: jsx(Setter, { children:
    jsx(Router, {}) }) })].  Arguments are evaluated before the call, so
    the innermost element is allocated first. *)
Definition Application : JSFunction :=
  {| params := [];
     body := fun _ =>
       let* router := jsx Router [] in
       let* setter := jsx Setter [("children", router)] in
       jsx BrowserRouter [("children", setter)] |}.

(** ** Reading an element tree back from the heap *)

(** The tree a value denotes: references are followed, so the tree is
    what a structural comparison of two values looks at. *)
Inductive ReactNode :=
| NUndefined
| NText (s : string)
| NElement (ty : Component) (ps : list (string * ReactNode)).

Fixpoint map_props {A B} (f : A -> option B) (l : list (string * A))
  : option (list (string * B)) :=
  match l with
  | [] => Some []
  | (k, x) :: l' =>
      match f x, map_props f l' with
      | Some y, Some r => Some ((k, y) :: r)
      | _, _ => None
      end
  end.

(** [fuel] bounds the depth to which references are followed; a dangling
    reference, or a chain longer than [fuel], gives [None]. *)
Fixpoint reify (fuel : nat) (h : Heap) (v : Value) : option ReactNode :=
  match v with
  | VUndefined => Some NUndefined
  | VString s => Some (NText s)
  | VRef a =>
      match fuel with
      | 0 => None
      | S fuel' =>
          match h !! a with
          | None => None
          | Some el =>
              option_map (NElement (type el))
                         (map_props (reify fuel' h) (props el))
          end
      end
  end.

(** A chain of distinct objects is no longer than the heap, so the size
    of the heap is fuel enough for every tree in it. *)
Definition snapshot (r : Value * Heap) : option ReactNode :=
  reify (length (snd r)) (snd r) (fst r).

(** The addresses of the objects a value reaches. *)
Fixpoint reach (fuel : nat) (h : Heap) (v : Value) : list addr :=
  match v, fuel with
  | VRef a, S fuel' =>
      a :: match h !! a with
           | None => []
           | Some el => flat_map (fun kv => reach fuel' h (snd kv)) (props el)
           end
  | _, _ => []
  end.

(** ** Observations on element trees *)

Definition Component_eqb (c d : Component) : bool :=
  match c, d with
  | BrowserRouter, BrowserRouter | Router, Router | Setter, Setter => true
  | Internal a, Internal b => String.eqb a b
  | _, _ => false
  end.

Definition node_type (n : ReactNode) : option Component :=
  match n with NElement ty _ => Some ty | _ => None end.

Definition node_props (n : ReactNode) : list (string * ReactNode) :=
  match n with NElement _ ps => ps | _ => [] end.

Fixpoint assoc {A} (k : string) (l : list (string * A)) : option A :=
  match l with
  | [] => None
  | (k', x) :: l' => if String.eqb k k' then Some x else assoc k l'
  end.

(** [props.children] as the list of child nodes: no [children] key and
    an [undefined] child both mean no child. *)
Definition children (n : ReactNode) : list ReactNode :=
  match assoc "children" (node_props n) with
  | None | Some NUndefined => []
  | Some c => [c]
  end.

(** How many elements of component [c] the tree holds. *)
Fixpoint count (c : Component) (n : ReactNode) : nat :=
  match n with
  | NElement ty ps =>
      (if Component_eqb c ty then 1 else 0)
      + list_sum (map (fun kv => count c (snd kv)) ps)
  | _ => 0
  end.

(** Every element of the tree, parents before their children. *)
Fixpoint subnodes (n : ReactNode) : list ReactNode :=
  match n with
  | NElement _ ps => n :: flat_map (fun kv => subnodes (snd kv)) ps
  | _ => []
  end.

(** For every element of component [c] in the tree, the components of
    its ancestors, outermost first. *)
Fixpoint ancestors (c : Component) (n : ReactNode) : list (list Component) :=
  match n with
  | NElement ty ps =>
      (if Component_eqb c ty then [[]] else [])
      ++ map (cons ty) (flat_map (fun kv => ancestors c (snd kv)) ps)
  | _ => []
  end.

(** ** The host: what becomes of the element [Application] returns *)

(** What a mount leaves in the log: the components called, in call order,
    and the effects those calls had. *)
Inductive Event (Effect : Type) :=
| Called (c : Component)
| Did (eff : Effect).
Arguments Called {Effect} c.
Arguments Did {Effect} eff.

Inductive Outcome (Exn : Type) :=
| Rendered (text : list string)
| Threw (e : Exn)
| Pending.
Arguments Rendered {Exn} text.
Arguments Threw {Exn} e.
Arguments Pending {Exn}.

Section Host.
Context {Exn Effect : Type}.

(** The imported components are not part of this file: [impl c ps] is
    what calling component [c] with props [ps] does.  It has effects,
    and it either throws or returns the node to render in its place. *)
Variable impl :
  Component -> list (string * ReactNode) -> list Effect * (Exn + ReactNode).

(** Rendering calls the component of an element and goes on with what
    it returned.  An exception ends the rendering at once: nothing on
    the way up handles it.  [fuel] bounds the number of component
    calls; [Pending] is a rendering that needs more. *)
Fixpoint render (fuel : nat) (n : ReactNode)
  : list (Event Effect) * Outcome Exn :=
  match n with
  | NUndefined => ([], Rendered [])
  | NText s => ([], Rendered [s])
  | NElement c ps =>
      match fuel with
      | 0 => ([], Pending)
      | S fuel' =>
          let (effs, r) := impl c ps in
          match r with
          | inl e => (Called c :: map Did effs, Threw e)
          | inr n' =>
              let (log, o) := render fuel' n' in
              (Called c :: map Did effs ++ log, o)
          end
      end
  end.

(** Mounting [Application]: the host calls the function with whatever
    arguments it passes and renders the element it got back. *)
Definition mount (fuel : nat) (args : list Value) (h : Heap)
  : list (Event Effect) * Outcome Exn :=
  match snapshot (call Application args h) with
  | Some n => render fuel n
  | None => ([], Pending)
  end.

(** A component that throws [e] when given props [ps]. *)
Definition throws (c : Component) (ps : list (string * ReactNode)) (e : Exn)
  : Prop :=
  snd (impl c ps) = inl e.

(** A wrapper that renders the children it is given. *)
Definition renders_children (c : Component) (ps : list (string * ReactNode))
  : Prop :=
  snd (impl c ps) = inr (default NUndefined (assoc "children" ps)).

End Host.

(** ** The JSX expression of the source, read as a tree

    [<Router />], [<Setter><Router /></Setter>] and the whole expression.
    [Application_snapshot] below shows that these are the trees the
    elements allocated by [Application] denote. *)
Definition Router_jsx : ReactNode := NElement Router [].
Definition Setter_jsx : ReactNode := NElement Setter [("children", Router_jsx)].
Definition BrowserRouter_jsx : ReactNode :=
  NElement BrowserRouter [("children", Setter_jsx)].

(** The three objects a call of [Application] adds to heap [h]. *)
Definition Application_objects (h : Heap) : list ReactElement :=
  [ mkElement Router [];
    mkElement Setter [("children", VRef (length h))];
    mkElement BrowserRouter [("children", VRef (S (length h)))] ].

(** ** Sample hosts, to run the model on

    Both wrappers render their children and leave a trace of their
    setup; the router renders a marker text. *)
Definition sample_impl (c : Component) (ps : list (string * ReactNode))
  : list string * (string + ReactNode) :=
  match c with
  | BrowserRouter => (["history"], inr (default NUndefined (assoc "children" ps)))
  | Setter => (["setup"], inr (default NUndefined (assoc "children" ps)))
  | Router => ([], inr (NText "view"))
  | Internal _ => ([], inr NUndefined)
  end.

(** The same host with a [Setter] that throws during its setup. *)
Definition failing_Setter (c : Component) (ps : list (string * ReactNode))
  : list string * (string + ReactNode) :=
  match c with
  | Setter => ([], inl "setter failed")
  | _ => sample_impl c ps
  end.



(** ** Well-formed heaps

    Every reference held by the object at address [a] names an object
    allocated before it.  Such a heap has no dangling reference and no
    cycle. *)
Definition refs_below (n : nat) (el : ReactElement) : bool :=
  forallb (fun kv => match snd kv with VRef b => b <? n | _ => true end)
          (props el).

Fixpoint heap_wf_from (a : nat) (h : Heap) : bool :=
  match h with
  | [] => true
  | el :: h' => refs_below a el && heap_wf_from (S a) h'
  end.

Definition heap_wf (h : Heap) : bool := heap_wf_from 0 h.

(** * Properties *)

(** ** The heap *)

Lemma lookup_alloc (h : Heap) (el : ReactElement) :
  (h ++ [el]) !! length h = Some el.
Proof.
  rewrite lookup_app_r by lia. by rewrite Nat.sub_diag.
Qed.

Lemma lookup_old (h h' : Heap) (a : addr) (el : ReactElement) :
  h !! a = Some el -> (h ++ h') !! a = Some el.
Proof. intros Ha. by apply lookup_app_l_Some. Qed.

Lemma map_props_ext {A B} (f g : A -> option B) (l : list (string * A)) r :
  (forall x y, f x = Some y -> g x = Some y) ->
  map_props f l = Some r -> map_props g l = Some r.
Proof.
  intros Hfg. revert r.
  induction l as [|[k x] l IH]; intros r; simpl; [done|].
  destruct (f x) as [y|] eqn:Hx; [|done].
  destruct (map_props f l) as [r'|]; [|done].
  intros [= <-]. by rewrite (Hfg _ _ Hx), (IH r').
Qed.

(** Allocation never changes the tree an existing value denotes, and
    neither does more fuel. *)
Lemma reify_weaken fuel : forall fuel' h h' v n,
  fuel <= fuel' ->
  reify fuel h v = Some n -> reify fuel' (h ++ h') v = Some n.
Proof.
  induction fuel as [|fuel IH]; intros fuel' h h' v n Hle;
    destruct v as [| s | a]; simpl; try by destruct fuel'.
  destruct fuel' as [|fuel']; [lia|]. simpl.
  destruct (h !! a) as [el|] eqn:Ha; [|done].
  rewrite (lookup_old _ h' _ _ Ha).
  destruct (map_props (reify fuel h) (props el)) as [r|] eqn:Hr; [|done].
  intros [= <-].
  rewrite (map_props_ext (reify fuel h) (reify fuel' (h ++ h')) _ r); [done| |done].
  intros x y. apply IH. lia.
Qed.

Lemma reify_more_fuel fuel fuel' h v n :
  fuel <= fuel' -> reify fuel h v = Some n -> reify fuel' h v = Some n.
Proof.
  intros Hle Hn. rewrite <- (app_nil_r h). by apply reify_weaken with fuel.
Qed.

(** The element [jsx] allocates denotes the component applied to what
    the props denoted before the allocation. *)
Lemma reify_jsx fuel h ty ps r :
  map_props (reify fuel h) ps = Some r ->
  reify (S fuel) (snd (jsx ty ps h)) (fst (jsx ty ps h)) = Some (NElement ty r).
Proof.
  intros Hr. simpl. rewrite lookup_alloc. simpl.
  rewrite (map_props_ext (reify fuel h) (reify fuel (h ++ [mkElement ty ps])) ps r);
    [done| |done].
  intros x y. by apply reify_weaken.
Qed.

(** ** What a call of [Application] does to the heap *)

Lemma call_Application args h :
  call Application args h
  = (VRef (S (S (length h))), h ++ Application_objects h).
Proof.
  unfold call, Application_objects. simpl. unfold bind, jsx.
  rewrite !length_app. simpl.
  rewrite <- !app_assoc. simpl.
  by rewrite !Nat.add_1_r.
Qed.

Lemma Application_reify args h fuel :
  3 <= fuel ->
  reify fuel (snd (call Application args h)) (fst (call Application args h))
  = Some BrowserRouter_jsx.
Proof.
  intros Hfuel. apply reify_more_fuel with 3; [done|].
  unfold call, Application. cbn [body]. unfold bind.
  destruct (jsx Router [] h) as [router h1] eqn:E1.
  destruct (jsx Setter [("children", router)] h1) as [setter h2] eqn:E2.
  assert (H1 : reify 1 h1 router = Some Router_jsx).
  { change router with (fst (router, h1)). change h1 with (snd (router, h1)) at 1.
    rewrite <- E1. by apply reify_jsx. }
  assert (H2 : reify 2 h2 setter = Some Setter_jsx).
  { change setter with (fst (setter, h2)). change h2 with (snd (setter, h2)) at 1.
    rewrite <- E2. apply reify_jsx. cbn [map_props]. by rewrite H1. }
  apply reify_jsx. cbn [map_props]. by rewrite H2.
Qed.

Lemma Application_snapshot args h :
  snapshot (call Application args h) = Some BrowserRouter_jsx.
Proof.
  unfold snapshot. apply Application_reify.
  rewrite call_Application. simpl. rewrite length_app. simpl. lia.
Qed.

Lemma reach_more_fuel fuel : forall fuel' (h : Heap) v a,
  fuel <= fuel' -> a ∈ reach fuel h v -> a ∈ reach fuel' h v.
Proof.
  induction fuel as [|fuel IH]; intros fuel' h v a Hle;
    destruct v as [| s | b]; simpl; try (by intros ?%elem_of_nil).
  destruct fuel' as [|fuel']; [lia|]. simpl.
  intros [-> | Ha]%elem_of_cons; [apply list_elem_of_here|].
  apply list_elem_of_further.
  destruct (h !! b) as [el|]; [|done].
  apply list_elem_of_In, in_flat_map in Ha as ([k w] & Hkw & Ha).
  apply list_elem_of_In, in_flat_map. exists (k, w). split; [done|].
  apply list_elem_of_In, IH with (fuel' := fuel') in Ha; [|lia].
  by apply list_elem_of_In.
Qed.

Lemma Application_lookup h h' i el :
  Application_objects h !! i = Some el ->
  ((h ++ Application_objects h) ++ h') !! (i + length h) = Some el.
Proof.
  intros Hi. apply lookup_old.
  rewrite lookup_app_r by lia.
  by replace (i + length h - length h) with i by lia.
Qed.

(** What the returned reference reaches is the three objects of the
    call, whatever is allocated later. *)
Lemma Application_reach args h h' fuel :
  3 <= fuel ->
  reach fuel (snd (call Application args h) ++ h') (fst (call Application args h))
  = [S (S (length h)); S (length h); length h].
Proof.
  intros Hfuel. rewrite call_Application. cbn [fst snd].
  destruct fuel as [|[|[|fuel]]]; [lia..|].
  pose proof (Application_lookup h h' 2 _ eq_refl) as L2.
  pose proof (Application_lookup h h' 1 _ eq_refl) as L1.
  pose proof (Application_lookup h h' 0 _ eq_refl) as L0.
  cbn [Nat.add] in L2, L1, L0.
  cbn [reach]. rewrite L2. cbn [props flat_map snd reach app].
  rewrite L1. cbn [props flat_map snd reach app].
  rewrite L0. done.
Qed.

(** ** The claims about the returned structure *)

(** C1. Every invocation of [Application] returns one element tree whose
    nesting is fixed: the root is a [BrowserRouter] element, its only
    child is a [Setter] element, whose only child is a [Router] element,
    which has no child.  The tree is the same for all arguments and all
    heaps. *)
Theorem Application_nesting (args : list Value) (h : Heap) :
  exists root setter router,
    snapshot (call Application args h) = Some root
    /\ node_type root = Some BrowserRouter /\ children root = [setter]
    /\ node_type setter = Some Setter /\ children setter = [router]
    /\ node_type router = Some Router /\ children router = [].
Proof.
  exists BrowserRouter_jsx, Setter_jsx, Router_jsx.
  split; [apply Application_snapshot|]. by repeat split.
Qed.

(** C4. The tree of every mount holds exactly one [BrowserRouter]
    element, and that element is the root: it has no ancestor. *)
Theorem one_BrowserRouter_outermost (args : list Value) (h : Heap) :
  exists root,
    snapshot (call Application args h) = Some root
    /\ count BrowserRouter root = 1
    /\ node_type root = Some BrowserRouter
    /\ ancestors BrowserRouter root = [[]].
Proof.
  exists BrowserRouter_jsx. split; [apply Application_snapshot|].
  by repeat split.
Qed.

(** C8. The element object [Application] creates for [BrowserRouter]
    carries one prop only, [children]: no configuration is passed. *)
Theorem BrowserRouter_default_configuration (args : list Value) (h : Heap) :
  exists a el child,
    fst (call Application args h) = VRef a
    /\ snd (call Application args h) !! a = Some el
    /\ type el = BrowserRouter
    /\ props el = [("children", VRef child)].
Proof.
  rewrite call_Application. cbn [fst snd].
  exists (S (S (length h))), (mkElement BrowserRouter [("children", VRef (S (length h)))]),
    (S (length h)).
  split; [done|]. split; [|done].
  rewrite <- (app_nil_r (h ++ _)).
  by apply (Application_lookup h [] 2).
Qed.

(** C9. Every [Router] element of the tree has an empty props object: no
    prop and no child is passed to it; and the tree does hold one. *)
Theorem Router_is_a_bare_leaf (args : list Value) (h : Heap) :
  exists root,
    snapshot (call Application args h) = Some root
    /\ (exists r, r ∈ subnodes root /\ node_type r = Some Router)
    /\ forall r, r ∈ subnodes root -> node_type r = Some Router ->
         node_props r = [] /\ children r = [].
Proof.
  exists BrowserRouter_jsx. split; [apply Application_snapshot|]. split.
  - exists Router_jsx. split; [|done].
    cbn. do 2 apply list_elem_of_further. apply list_elem_of_here.
  - intros r Hr Hty. cbn in Hr.
    repeat (apply elem_of_cons in Hr as [-> | Hr]); try done.
    by apply elem_of_nil in Hr.
Qed.

(** C10. Every [Setter] element of the tree has exactly one child, and
    that child is a [Router] element; and the tree does hold one. *)
Theorem Setter_has_the_Router_as_only_child (args : list Value) (h : Heap) :
  exists root,
    snapshot (call Application args h) = Some root
    /\ (exists s, s ∈ subnodes root /\ node_type s = Some Setter)
    /\ forall s, s ∈ subnodes root -> node_type s = Some Setter ->
         exists r, children s = [r] /\ node_type r = Some Router.
Proof.
  exists BrowserRouter_jsx. split; [apply Application_snapshot|]. split.
  - exists Setter_jsx. split; [|done].
    cbn. apply list_elem_of_further, list_elem_of_here.
  - intros s Hs Hty. cbn in Hs.
    repeat (apply elem_of_cons in Hs as [-> | Hs]); try done.
    + by exists Router_jsx.
    + by apply elem_of_nil in Hs.
Qed.

(** ** Inputs, determinism and effects of the call itself *)

(** C6. [Application] declares no parameter, its body does not look at
    its environment, and so a call gives the same result whatever the
    caller passes. *)
Theorem Application_takes_no_input :
  params Application = []
  /\ (forall env env', body Application env = body Application env')
  /\ forall (args args' : list Value) (h : Heap),
       call Application args h = call Application args' h.
Proof.
  split; [done|]. split; [done|].
  intros args args' h. by rewrite !call_Application.
Qed.

(** C3. Two calls from the same state give equal results.  When a second
    mount follows a first one, both returned trees are the same tree, the
    first one still reads the same after the second call, the two
    returned elements are different objects, and no object is reached
    from both: the two mounts share nothing. *)
Theorem Application_mounts_are_independent (args args' : list Value) (h : Heap) :
  call Application args h = call Application args' h
  /\ let first := call Application args h in
     let second := call Application args' (snd first) in
     exists tree,
       snapshot first = Some tree
       /\ snapshot second = Some tree
       /\ snapshot (fst first, snd second) = Some tree
       /\ fst first <> fst second
       /\ forall fuel a,
            a ∈ reach fuel (snd second) (fst first) ->
            a ∉ reach fuel (snd second) (fst second).
Proof.
  split; [by rewrite !call_Application|].
  intros first second. exists BrowserRouter_jsx.
  split; [apply Application_snapshot|].
  split; [apply Application_snapshot|].
  split; [|split].
  - unfold snapshot. cbn [fst snd]. subst second.
    rewrite (call_Application args' (snd first)) at 2. cbn [snd].
    apply reify_weaken with 3.
    + rewrite call_Application. cbn [snd]. rewrite !length_app. simpl. lia.
    + by apply Application_reify.
  - subst second first. rewrite !call_Application. cbn [fst snd].
    rewrite length_app. simpl. intros [= Heq]. lia.
  - intros fuel a H1 H2.
    apply reach_more_fuel with (fuel' := fuel + 3) in H1; [|lia].
    apply reach_more_fuel with (fuel' := fuel + 3) in H2; [|lia].
    subst second. rewrite (call_Application args' (snd first)) in H1 at 1.
    cbn [snd] in H1. subst first.
    rewrite Application_reach in H1 by lia.
    rewrite <- (app_nil_r (snd (call Application args' _))) in H2.
    rewrite Application_reach in H2 by lia.
    rewrite call_Application in H2. cbn [snd] in H2.
    rewrite length_app in H2. simpl in H2.
    repeat (apply elem_of_cons in H1 as [-> | H1]);
      try (by apply elem_of_nil in H1);
      repeat (apply elem_of_cons in H2 as [H2 | H2]);
      try (by apply elem_of_nil in H2); lia.
Qed.

(** ** Rendering *)

Section Rendering.
Context {Exn Effect : Type}.
Variable impl :
  Component -> list (string * ReactNode) -> list Effect * (Exn + ReactNode).

(** A mount renders the tree of the JSX expression and adds nothing. *)
Lemma mount_render fuel args h :
  mount impl fuel args h = render impl fuel BrowserRouter_jsx.
Proof. unfold mount. by rewrite Application_snapshot. Qed.

(** A component called with no fuel left for it is not called. *)
Lemma render_no_fuel c ps : render impl 0 (NElement c ps) = ([], Pending).
Proof. done. Qed.

Lemma render_throw fuel c ps e :
  throws impl c ps e -> snd (render impl (S fuel) (NElement c ps)) = Threw e.
Proof.
  unfold throws. simpl. destruct (impl c ps) as [effs r]. simpl.
  by intros ->.
Qed.

Lemma render_through fuel c ps :
  renders_children impl c ps ->
  snd (render impl (S fuel) (NElement c ps))
  = snd (render impl fuel (default NUndefined (assoc "children" ps))).
Proof.
  unfold renders_children. simpl. destruct (impl c ps) as [effs r]. simpl.
  intros ->. by destruct (render impl fuel _).
Qed.

(** The log of a rendering starts with the call of the root component;
    what follows up to the next call are effects of that call. *)
Lemma render_log_through fuel c ps :
  renders_children impl c ps ->
  fst (render impl (S fuel) (NElement c ps))
  = Called c :: map Did (fst (impl c ps))
      ++ fst (render impl fuel (default NUndefined (assoc "children" ps))).
Proof.
  unfold renders_children. simpl. destruct (impl c ps) as [effs r]. simpl.
  intros ->. by destruct (render impl fuel _).
Qed.

(** Every effect in the log was had by a component that the log shows
    as called. *)
Lemma render_effect_origin fuel : forall n eff,
  Did eff ∈ fst (render impl fuel n) ->
  exists c ps, Called c ∈ fst (render impl fuel n) /\ eff ∈ fst (impl c ps).
Proof.
  induction fuel as [|fuel IH]; intros n eff;
    destruct n as [| s | c ps]; simpl; try (by intros ?%elem_of_nil).
  destruct (impl c ps) as [effs r] eqn:Himpl.
  assert (Hown : Did eff ∈ map (@Did Effect) effs -> eff ∈ fst (impl c ps)).
  { intros (x & [= ->] & Hx)%list_elem_of_In%in_map_iff.
    rewrite Himpl. by apply list_elem_of_In. }
  destruct r as [e | n'].
  - simpl. intros [? | Hin]%elem_of_cons; [done|].
    exists c, ps. split; [apply list_elem_of_here | by apply Hown].
  - destruct (render impl fuel n') as [log o] eqn:Hsub. simpl.
    intros [? | [Hin | Hin]%elem_of_app]%elem_of_cons; [done | |].
    + exists c, ps. split; [apply list_elem_of_here | by apply Hown].
    + specialize (IH n' eff). rewrite Hsub in IH.
      destruct (IH Hin) as (c' & ps' & Hc' & Heff).
      exists c', ps'. split; [|done].
      apply list_elem_of_further, elem_of_app. by right.
Qed.

End Rendering.

(** C7. A call of [Application] has no effect of its own.  It leaves
    every object of the heap as it was; the objects it adds are the ones
    the returned element reaches, so all it does is build the structure
    it returns; and every effect in the log of a mount was had by a
    component that was called during that mount. *)
Theorem Application_only_builds_its_result (args : list Value) (h : Heap) :
  let r := call Application args h in
  (forall a el, h !! a = Some el -> snd r !! a = Some el)
  /\ (forall a, a ∈ reach 3 (snd r) (fst r) <-> length h <= a < length (snd r))
  /\ forall (Exn Effect : Type)
       (impl : Component -> list (string * ReactNode) ->
               list Effect * (Exn + ReactNode))
       (fuel : nat) (eff : Effect),
       Did eff ∈ fst (mount impl fuel args h) ->
       exists c ps,
         Called c ∈ fst (mount impl fuel args h) /\ eff ∈ fst (impl c ps).
Proof.
  intros r. split; [|split].
  - intros a el Ha. subst r. rewrite call_Application. cbn [snd].
    by apply lookup_old.
  - intros a. subst r.
    rewrite <- (app_nil_r (snd (call Application args h))) at 1.
    rewrite Application_reach by done.
    rewrite call_Application. cbn [snd]. rewrite length_app. simpl.
    rewrite !elem_of_cons, elem_of_nil. lia.
  - intros Exn Effect impl fuel eff. rewrite mount_render.
    apply render_effect_origin.
Qed.

(** ** Order of the calls, and exceptions *)

Section CallOrder.
Context {Exn Effect : Type}.
Variable impl :
  Component -> list (string * ReactNode) -> list Effect * (Exn + ReactNode).

(** With fuel for it, the root component is the first thing called. *)
Lemma render_log_head fuel c ps :
  exists tl, fst (render impl (S fuel) (NElement c ps)) = Called c :: tl.
Proof.
  simpl. destruct (impl c ps) as [effs [e | n']]; [by eexists|].
  destruct (render impl fuel n') as [log o]. by eexists.
Qed.

(** An exception that comes out of a rendering is one that a called
    component threw. *)
Lemma render_throw_origin fuel : forall n e,
  snd (render impl fuel n) = Threw e ->
  exists c ps, Called c ∈ fst (render impl fuel n) /\ throws impl c ps e.
Proof.
  unfold throws.
  induction fuel as [|fuel IH]; intros n e;
    destruct n as [| s | c ps]; simpl; try done.
  destruct (impl c ps) as [effs [e' | n']] eqn:Himpl.
  - simpl. intros [= ->]. exists c, ps.
    split; [apply list_elem_of_here | by rewrite Himpl].
  - specialize (IH n' e).
    destruct (render impl fuel n') as [log o]. simpl in *.
    intros Ho. destruct (IH Ho) as (c' & ps' & Hc' & He).
    exists c', ps'. split; [|done].
    apply list_elem_of_further, elem_of_app. by right.
Qed.

End CallOrder.

(** In a list that starts with [l], then has [y], an [x] that is neither
    in [l] nor [y] comes after [y]. *)
Lemma occurs_after {A} (x y : A) (l : list A) : forall pre post rest,
  x ∉ l -> x <> y -> pre ++ x :: post = l ++ y :: rest -> y ∈ pre.
Proof.
  induction l as [|a l IH]; intros pre post rest Hx Hxy Heq.
  - destruct pre as [|b pre]; simplify_eq/=. apply list_elem_of_here.
  - destruct pre as [|b pre]; simplify_eq/=.
    + exfalso. apply Hx, list_elem_of_here.
    + apply list_elem_of_further, (IH pre post rest); [|done..].
      intros Hin. by apply Hx, list_elem_of_further.
Qed.

(** C5. In the tree of every mount there is a [Router] element, and each
    one has a [Setter] element among its ancestors.  In the rendering
    too: when the [BrowserRouter] renders the children it was given, no
    call of [Router] appears in the log before a call of [Setter]. *)
Theorem Router_only_below_Setter (args : list Value) (h : Heap) :
  exists root,
    snapshot (call Application args h) = Some root
    /\ ancestors Router root <> []
    /\ (forall p, p ∈ ancestors Router root -> Setter ∈ p)
    /\ forall (Exn Effect : Type)
         (impl : Component -> list (string * ReactNode) ->
                 list Effect * (Exn + ReactNode))
         (fuel : nat) (pre post : list (Event Effect)),
         renders_children impl BrowserRouter (node_props root) ->
         fst (mount impl fuel args h) = pre ++ Called Router :: post ->
         Called Setter ∈ pre.
Proof.
  exists BrowserRouter_jsx. split; [apply Application_snapshot|].
  split; [done|]. split.
  - intros p Hp. cbn in Hp.
    apply elem_of_cons in Hp as [-> | Hp]; [|by apply elem_of_nil in Hp].
    apply list_elem_of_further, list_elem_of_here.
  - intros Exn Effect impl fuel pre post Hbr. rewrite mount_render.
    destruct fuel as [|fuel]; [by destruct pre|].
    unfold BrowserRouter_jsx. rewrite render_log_through by done.
    change (default _ (assoc "children" [("children", Setter_jsx)]))
      with (NElement Setter [("children", Router_jsx)]).
    set (own := map (@Did Effect) (fst (impl BrowserRouter _))).
    assert (Hown : Called Router ∉ Called BrowserRouter :: own).
    { intros [? | Hin]%elem_of_cons; [done|].
      by apply list_elem_of_In, in_map_iff in Hin as (x & ? & _). }
    destruct fuel as [|fuel].
    + rewrite render_no_fuel. cbn [fst]. rewrite app_nil_r. intros Heq.
      exfalso. apply Hown. rewrite Heq. apply elem_of_app. right.
      apply list_elem_of_here.
    + destruct (render_log_head impl fuel Setter [("children", Router_jsx)])
        as [tl ->].
      intros Heq.
      by apply (occurs_after (Called Router) (Called Setter)
                  (Called BrowserRouter :: own) pre post tl).
Qed.

(** C2. Nothing in [Application] handles an exception.  If the
    [BrowserRouter] throws, or it renders its children and the [Setter]
    throws, or both render their children and the [Router] throws, then
    the mount ends with that very exception, as soon as there is fuel for
    the call that throws.  And whenever a mount ends with an exception,
    it is one that a component called during the mount threw. *)
Theorem errors_escape_Application (args : list Value) (h : Heap) :
  exists root setter router,
    snapshot (call Application args h) = Some root
    /\ children root = [setter] /\ children setter = [router]
    /\ forall (Exn Effect : Type)
         (impl : Component -> list (string * ReactNode) ->
                 list Effect * (Exn + ReactNode))
         (e : Exn),
         (throws impl BrowserRouter (node_props root) e ->
          forall fuel, 1 <= fuel -> snd (mount impl fuel args h) = Threw e)
         /\ (renders_children impl BrowserRouter (node_props root) ->
             throws impl Setter (node_props setter) e ->
             forall fuel, 2 <= fuel -> snd (mount impl fuel args h) = Threw e)
         /\ (renders_children impl BrowserRouter (node_props root) ->
             renders_children impl Setter (node_props setter) ->
             throws impl Router (node_props router) e ->
             forall fuel, 3 <= fuel -> snd (mount impl fuel args h) = Threw e)
         /\ forall fuel,
              snd (mount impl fuel args h) = Threw e ->
              exists c ps,
                Called c ∈ fst (mount impl fuel args h) /\ throws impl c ps e.
Proof.
  exists BrowserRouter_jsx, Setter_jsx, Router_jsx.
  split; [apply Application_snapshot|]. do 2 (split; [done|]).
  intros Exn Effect impl e. repeat split.
  - intros Hbr [|fuel] Hfuel; [lia|]. rewrite mount_render.
    by apply render_throw.
  - intros Hbr Hset [|[|fuel]] Hfuel; [lia..|]. rewrite mount_render.
    unfold BrowserRouter_jsx. rewrite render_through by done.
    by apply render_throw.
  - intros Hbr Hset Hrou [|[|[|fuel]]] Hfuel; [lia..|]. rewrite mount_render.
    unfold BrowserRouter_jsx. rewrite render_through by done.
    change (default _ (assoc "children" [("children", Setter_jsx)]))
      with (NElement Setter [("children", Router_jsx)]).
    rewrite render_through by done.
    by apply render_throw.
  - intros fuel. rewrite mount_render. apply render_throw_origin.
Qed.

(** ** The model at work *)

Example mount_sample :
  mount sample_impl 3 [] []
  = ([Called BrowserRouter; Did "history"; Called Setter; Did "setup";
      Called Router], Rendered ["view"]).
Proof. reflexivity. Qed.

Example mount_failing_Setter :
  mount failing_Setter 3 [] []
  = ([Called BrowserRouter; Did "history"; Called Setter],
     Threw "setter failed").
Proof. reflexivity. Qed.

Example mount_short_of_fuel :
  mount sample_impl 2 [] []
  = ([Called BrowserRouter; Did "history"; Called Setter; Did "setup"],
     Pending).
Proof. reflexivity. Qed.

Example call_on_empty_heap :
  call Application [VString "ignored"] []
  = (VRef 2,
     [mkElement Router [];
      mkElement Setter [("children", VRef 0)];
      mkElement BrowserRouter [("children", VRef 1)]]).
Proof. reflexivity. Qed.

Lemma errors_escape_Application_witness :
  renders_children failing_Setter BrowserRouter [("children", Setter_jsx)]
  /\ throws failing_Setter Setter [("children", Router_jsx)] "setter failed"
  /\ snd (mount failing_Setter 2 [] []) = Threw "setter failed".
Proof.
  split; [reflexivity|]. split; [reflexivity|].
  destruct (errors_escape_Application [] [])
    as (root & setter & router & Hroot & Hsetter & Hrouter & Himpl).
  vm_compute in Hroot. injection Hroot as <-.
  vm_compute in Hsetter. injection Hsetter as <-.
  apply (proj1 (proj2 (Himpl string string failing_Setter "setter failed")));
    [reflexivity | reflexivity | lia].
Defined.

Lemma Router_only_below_Setter_witness :
  renders_children sample_impl BrowserRouter [("children", Setter_jsx)]
  /\ Called Setter
     ∈ [Called BrowserRouter; Did "history"; Called Setter; Did "setup"].
Proof.
  split; [reflexivity|].
  destruct (Router_only_below_Setter [] []) as (root & Hroot & _ & _ & Hlog).
  vm_compute in Hroot. injection Hroot as <-.
  apply (Hlog string string sample_impl 3 _ []); reflexivity.
Defined.

Lemma Application_mounts_are_independent_witness :
  2 ∈ reach 3 (snd (call Application [] (snd (call Application [] []))))
              (fst (call Application [] []))
  /\ 2 ∉ reach 3 (snd (call Application [] (snd (call Application [] []))))
                 (fst (call Application [] (snd (call Application [] [])))).
Proof.
  assert (Hin : 2 ∈ reach 3 (snd (call Application [] (snd (call Application [] []))))
                            (fst (call Application [] []))).
  { vm_compute. apply list_elem_of_here. }
  split; [exact Hin|].
  destruct (Application_mounts_are_independent [] [] [])
    as (_ & tree & _ & _ & _ & _ & Hshare).
  exact (Hshare 3 2 Hin).
Defined.

Lemma Application_only_builds_its_result_witness :
  [mkElement (Internal "div") []] !! 0 = Some (mkElement (Internal "div") [])
  /\ snd (call Application [] [mkElement (Internal "div") []]) !! 0
     = Some (mkElement (Internal "div") []).
Proof.
  split; [reflexivity|].
  apply (proj1 (Application_only_builds_its_result [] [mkElement (Internal "div") []])).
  reflexivity.
Defined.

Lemma Router_is_a_bare_leaf_witness :
  node_props Router_jsx = [] /\ children Router_jsx = [].
Proof.
  destruct (Router_is_a_bare_leaf [] []) as (root & Hroot & _ & Hall).
  vm_compute in Hroot. injection Hroot as <-.
  apply Hall; [|reflexivity].
  vm_compute. do 2 apply list_elem_of_further. apply list_elem_of_here.
Defined.

Lemma Setter_has_the_Router_as_only_child_witness :
  exists r, children Setter_jsx = [r] /\ node_type r = Some Router.
Proof.
  destruct (Setter_has_the_Router_as_only_child [] []) as (root & Hroot & _ & Hall).
  vm_compute in Hroot. injection Hroot as <-.
  apply Hall; [|reflexivity].
  vm_compute. apply list_elem_of_further, list_elem_of_here.
Defined.

(** * Further properties of [Application] *)

(** ** The objects of a call *)

Lemma heap_wf_from_app (h l : Heap) : forall a,
  heap_wf_from a (h ++ l) = heap_wf_from a h && heap_wf_from (a + length h) l.
Proof.
  induction h as [|el h IH]; intros a; simpl.
  - by rewrite Nat.add_0_r.
  - rewrite IH, andb_assoc. by rewrite Nat.add_succ_r.
Qed.

(** X1. A call of [Application] keeps the heap as well formed as it was:
    it neither adds a dangling or forward reference nor repairs one. *)
Theorem Application_keeps_heap_wf (args : list Value) (h : Heap) :
  heap_wf (snd (call Application args h)) = heap_wf h.
Proof.
  rewrite call_Application. cbn [snd]. unfold heap_wf.
  rewrite heap_wf_from_app. cbn [Nat.add].
  unfold Application_objects. cbn [heap_wf_from refs_below props forallb snd].
  assert (H1 : (length h <? S (length h)) = true) by (apply Nat.ltb_lt; lia).
  assert (H2 : (S (length h) <? S (S (length h))) = true) by (apply Nat.ltb_lt; lia).
  rewrite H1, H2. cbn [andb]. by rewrite andb_true_r.
Qed.

(** X2. Every object a call of [Application] creates has no prop other
    than [children], and that prop refers to an object created earlier by
    the same call: never to an object that was in the heap before, and
    never to the object itself. *)
Theorem created_objects_hold_children_only
  (args : list Value) (h : Heap) (a : addr) (el : ReactElement)
  (k : string) (v : Value) :
  length h <= a ->
  snd (call Application args h) !! a = Some el ->
  (k, v) ∈ props el ->
  k = "children" /\ exists b, v = VRef b /\ length h <= b < a.
Proof.
  intros Ha. rewrite call_Application. cbn [snd].
  rewrite lookup_app_r by done.
  assert (Hsplit : a = (a - length h) + length h) by lia.
  destruct (a - length h) as [|[|[|i]]]; cbn; intros [= <-]; cbn [props].
  - by intros ?%elem_of_nil.
  - intros [[= -> ->] | ?%elem_of_nil]%elem_of_cons; [|done].
    split; [done|]. exists (length h). split; [done|]. lia.
  - intros [[= -> ->] | ?%elem_of_nil]%elem_of_cons; [|done].
    split; [done|]. exists (S (length h)). split; [done|]. lia.
Qed.

Lemma created_objects_hold_children_only_witness :
  1 <= 2
  /\ snd (call Application [] [mkElement (Internal "div") []]) !! 2
     = Some (mkElement Setter [("children", VRef 1)])
  /\ ("children", VRef 1) ∈ props (mkElement Setter [("children", VRef 1)])
  /\ "children" = "children" /\ exists b, VRef 1 = VRef b /\ 1 <= b < 2.
Proof.
  assert (Hin : ("children", VRef 1)
                ∈ props (mkElement Setter [("children", VRef 1)])).
  { apply list_elem_of_here. }
  split; [lia|]. split; [reflexivity|]. split; [exact Hin|].
  apply (created_objects_hold_children_only
           [] [mkElement (Internal "div") []] 2
           (mkElement Setter [("children", VRef 1)]) "children" (VRef 1));
    [simpl; lia | reflexivity | exact Hin].
Defined.

(** ** What a mount calls *)

Section Calls.
Context {Exn Effect : Type}.
Variable impl :
  Component -> list (string * ReactNode) -> list Effect * (Exn + ReactNode).







End Calls.







(** X6. Whatever the imported components do, a mount with any fuel at all
    starts with the call of the [BrowserRouter], followed by the effects
    of that call; nothing is called or done before it.  With no fuel
    nothing is called. *)
Theorem BrowserRouter_is_called_first (args : list Value) (h : Heap) :
  exists root,
    snapshot (call Application args h) = Some root
    /\ forall (Exn Effect : Type)
         (impl : Component -> list (string * ReactNode) ->
                 list Effect * (Exn + ReactNode)),
         mount impl 0 args h = ([], Pending)
         /\ forall fuel, exists rest,
              fst (mount impl (S fuel) args h)
              = Called BrowserRouter
                  :: map Did (fst (impl BrowserRouter (node_props root)))
                  ++ rest.
Proof.
  exists BrowserRouter_jsx. split; [apply Application_snapshot|].
  intros Exn Effect impl. split; [by rewrite mount_render|].
  intros fuel. rewrite mount_render. unfold BrowserRouter_jsx.
  cbn [render node_props].
  destruct (impl BrowserRouter _) as [effs [e | n']]; cbn [fst].
  - exists []. by rewrite app_nil_r.
  - destruct (render impl fuel n') as [log o]. by exists log.
Qed.
